(** * ReadWriteRegistry (rwregistry.go): a name -> metric registry

    A sequential model of [ReadWriteRegistry].  The registry's only field
    besides the mutex is [metrics map[string]interface{}]; it is modelled
    as a finite map from names to interface values.  Every method takes
    its lock on entry and releases it on exit (or, in [GetOrRegister],
    around each of its two accesses), so in a single thread of control a
    method is a function of the map it finds; the places where no lock is
    held and foreign code runs (the factory of [GetOrRegister], the visitor
    of [Each]) are modelled by letting that code transform the map.  For
    [Each], which ranges over one map object while its visitor writes to
    another, the map objects are also modelled in a heap ([Objects]). *)

From stdpp Require Import gmap strings list fin_maps.

(** ** Interface values *)

(** Modelled from the spec: the interfaces [Counter], [Gauge],
    [GaugeFloat64], [Healthcheck], [Histogram], [Meter] and [Timer] are
    declared outside rwregistry.go; the registry only asks whether a
    dynamic type satisfies them (the type switch of [register], the type
    assertion of [RunHealthchecks]). *)
Inductive Capability : Set :=
  | Counter | Gauge | GaugeFloat64 | Healthcheck | Histogram | Meter | Timer.

#[global] Instance Capability_eq_dec : EqDecision Capability.
Proof. solve_decision. Defined.

(** What [reflect.ValueOf(i).Kind()] can tell apart, as far as the code
    asks: a function value, with the shape of its signature
    ([NumIn], [IsVariadic]) and its code ([None] for a nil func), or
    anything else, told apart by a number (its address, for a pointer). *)
Inductive Repr : Set :=
  | Data (addr : nat)
  | Closure (num_in : nat) (variadic : bool) (code : option nat).

#[global] Instance Repr_eq_dec : EqDecision Repr.
Proof. solve_decision. Defined.

(** An [interface{}]: the nil interface, or a dynamic value together with
    the capabilities its method set satisfies. *)
Inductive Value : Set :=
  | Nil
  | Iface (methods : list Capability) (repr : Repr).

#[global] Instance Value_eq_dec : EqDecision Value.
Proof. solve_decision. Defined.

(** [i.(C)] / [case C:] for an interface type [C]: the nil interface
    satisfies no interface. *)
Definition implements (i : Value) (c : Capability) : bool :=
  match i with
  | Nil => false
  | Iface methods _ => bool_decide (c ∈ methods)
  end.

(** The type switch of [register]:
    [case Counter, Gauge, GaugeFloat64, Healthcheck, Histogram, Meter, Timer]. *)
Definition recognized (i : Value) : bool :=
  implements i Counter || implements i Gauge || implements i GaugeFloat64
  || implements i Healthcheck || implements i Histogram || implements i Meter
  || implements i Timer.

(** [v.Kind() == reflect.Func]; [reflect.ValueOf(nil)] is the zero Value,
    of kind Invalid. *)
Definition Kind_is_Func (i : Value) : bool :=
  match i with
  | Iface _ (Closure _ _ _) => true
  | _ => false
  end.

(** The arguments [reflect]'s [Call] insists on: [NumIn], less the
    variadic parameter, which may be left out. *)
Definition needed_args (num_in : nat) (variadic : bool) : nat :=
  if variadic then num_in - 1 else num_in.

(** Modelled from the spec: [DuplicateMetric] is declared outside
    rwregistry.go; it is the one error kind, carrying the colliding name. *)
Inductive error : Set :=
  | DuplicateMetric (name : string).

#[global] Instance error_eq_dec : EqDecision error.
Proof. solve_decision. Defined.

(** What a method makes happen outside the map: calls of foreign code. *)
Inductive Event : Set :=
  | Called (f : Value)                    (* v.Call(nil) ran f *)
  | Checked (h : Value)                   (* h.Check() *)
  | Visited (name : string) (i : Value).  (* f(name, i) in Each *)

#[global] Instance Event_eq_dec : EqDecision Event.
Proof. solve_decision. Defined.

(** The panics of [v.Call(nil)[0]]. *)
Inductive Panic : Set :=
  | CallOfNonFunction       (* reflect: call of Value.Call on a non-func *)
  | CallOfNilFunction       (* reflect: call of nil function *)
  | TooFewInputArguments    (* reflect: Call with too few input arguments *)
  | IndexOutOfRange.        (* [0] of an empty result slice *)

(** The visit of an entry, and the check of an entry that is a
    healthcheck (none for an entry that is not). *)
Definition visit_of (entry : string * Value) : Event :=
  Visited entry.1 entry.2.

Definition check_of (entry : string * Value) : option Event :=
  if implements entry.2 Healthcheck then Some (Checked entry.2) else None.

(** How often [e] occurs in a trace. *)
Definition calls (e : Event) (trace : list Event) : nat :=
  length (filter (e =.) trace).

(** How a call of [GetOrRegister] ends: with a value, or panicking; in
    both cases with the map it leaves and the foreign calls it made. *)
Inductive Outcome : Type :=
  | Returned (i : Value) (metrics : gmap string Value) (trace : list Event)
  | Panicked (p : Panic) (metrics : gmap string Value) (trace : list Event).

Definition trace_of (o : Outcome) : list Event :=
  match o with
  | Returned _ _ trace | Panicked _ _ trace => trace
  end.

(** ** Methods that need neither iteration nor reflection *)

(** [NewReadWriteRegistry]: [make(map[string]interface{})]. *)
Definition NewReadWriteRegistry : gmap string Value := ∅.

(** [Get]: [r.metrics[name]], the zero value [nil] when there is no entry. *)
Definition Get (name : string) (metrics : gmap string Value) : Value :=
  default Nil (metrics !! name).

(** [register]: refuses a name that has an entry; stores [i] when the
    type switch matches; answers nil otherwise too. *)
Definition register (name : string) (i : Value) (metrics : gmap string Value)
  : option error * gmap string Value :=
  match metrics !! name with
  | Some _ => (Some (DuplicateMetric name), metrics)
  | None => (None, if recognized i then <[name := i]> metrics else metrics)
  end.

(** [Register]: [register] under the write lock. *)
Definition Register (name : string) (i : Value) (metrics : gmap string Value)
  : option error * gmap string Value :=
  register name i metrics.

(** [Unregister]: [delete(r.metrics, name)]. *)
Definition Unregister (name : string) (metrics : gmap string Value)
  : gmap string Value :=
  delete name metrics.

(** The invariant of the map: [register] is the only place that writes
    an entry, and writes only what its type switch matched. *)
Definition only_recognized (metrics : gmap string Value) : Prop :=
  ∀ name i, metrics !! name = Some i → recognized i = true.

(** ** Sample values *)

Definition counterA : Value := Iface [Counter] (Data 1).
Definition counterB : Value := Iface [Counter] (Data 2).
Definition dbCheck : Value := Iface [Healthcheck] (Data 3).
(** A value of no metric type, such as a string. *)
Definition label : Value := Iface [] (Data 4).

(** [func() Counter { return counterB }] *)
Definition newCounter : Value := Iface [] (Closure 0 false (Some 0)).
(** [func() Counter { r.Register("requests", counterA); return counterB }] *)
Definition registeringFactory : Value := Iface [] (Closure 0 false (Some 1)).
(** [func(s Sample) Histogram], as [NewHistogram] is. *)
Definition newHistogram : Value := Iface [] (Closure 1 false (Some 2)).
(** [func(name string) Counter] *)
Definition namedCounter : Value := Iface [] (Closure 1 false (Some 3)).

(** The bodies of the sample functions, by code. *)
Definition sample_body (c : nat) (metrics : gmap string Value)
  : list Value * gmap string Value :=
  match c with
  | 0 => ([counterB], metrics)
  | 1 => ([counterB], (Register "requests" counterA metrics).2)
  | 2 => ([Iface [Histogram] (Data 5)], metrics)
  | _ => ([Iface [Counter] (Data 6)], metrics)
  end.

(** A visitor that unregisters the entry it is shown and registers
    another one. *)
Definition meddling_visitor (name : string) (i : Value)
    (metrics : gmap string Value) : gmap string Value :=
  (Register (name +:+ ".seen") counterB (Unregister name metrics)).2.

Definition sample_metrics : gmap string Value :=
  <["db" := dbCheck]> (<["requests" := counterA]> ∅).

(** [func() Counter { return nil }] and [func() {}], with the bodies of
    these two beside the sample ones. *)
Definition nilFactory : Value := Iface [] (Closure 0 false (Some 10)).
Definition noResult : Value := Iface [] (Closure 0 false (Some 11)).

Definition more_body (c : nat) (metrics : gmap string Value)
  : list Value * gmap string Value :=
  match c with
  | 10 => ([Nil], metrics)
  | 11 => ([], metrics)
  | _ => sample_body c metrics
  end.

(** A visitor that unregisters the entry it is shown. *)
Definition unregistering_visitor (name : string) (i : Value)
    (metrics : gmap string Value) : gmap string Value :=
  Unregister name metrics.

(** ** Map objects *)

(** A Go map value is a reference to a map object, and two references may
    be to the same object.  Where that matters (which object [Each]
    ranges over while its visitor writes to the registry) the map objects
    are kept in a heap, by address, and a registry is the address its
    [metrics] field refers to. *)
Module Objects.
Section Ranging.

Variable order : gmap string Value → list (string * Value).

(** [make(map[string]interface{}, n)]: a new, empty map object. *)
Definition make (heap : gmap nat (gmap string Value))
  : nat * gmap nat (gmap string Value) :=
  let l := fresh (dom heap) in (l, <[l := ∅]> heap).

(** [registered]: makes a map object, writes each entry of the object
    [r.metrics] into it and returns the reference to it. *)
Definition registered (r : nat) (heap : gmap nat (gmap string Value))
  : nat * gmap nat (gmap string Value) :=
  let '(l, heap1) := make heap in
  (l, foldl (λ heap '(name, i), alter (insert name i) l heap)
        heap1 (order (heap1 !!! r))).

(** [Each]: ranges over the object [registered] returned.  [range] takes
    the entries of that object in the order chosen when the loop starts,
    reads each from the object when its turn comes and yields none that
    has been removed by then (one added meanwhile, which Go may yield or
    not, is not yielded); the visitor acts on the object [r.metrics].
    The result is the heap as the loop leaves it, and the visits made. *)
Definition Each (f : string → Value → gmap string Value → gmap string Value)
    (r : nat) (heap : gmap nat (gmap string Value))
  : gmap nat (gmap string Value) * list Event :=
  let '(l, heap1) := registered r heap in
  foldl (λ '(heap, trace) '(name, _),
           match (heap !!! l) !! name with
           | Some i => (alter (f name i) r heap, trace ++ [Visited name i])
           | None => (heap, trace)
           end)
        (heap1, []) (order (heap1 !!! l)).

End Ranging.
End Objects.

(** ** Methods that run foreign code or range over the map *)

Section Registry.

(** The body of a function value, by its code: run with no argument on
    the registry's map as it stands, it yields its results and the map
    as it leaves it.  [GetOrRegister] holds no lock while the function
    runs, so the function may itself call the registry's methods. *)
Variable body : nat → gmap string Value → list Value * gmap string Value.

(** The order in which [range] yields the entries of a map.  The Go
    runtime chooses it, so it is any enumeration of the entries, each
    once; nothing below depends on which. *)
Variable order : gmap string Value → list (string * Value).
Hypothesis order_perm : ∀ metrics, order metrics ≡ₚ map_to_list metrics.

(** [v.Call(nil)]: panics unless [v] is of kind Func, on a nil func,
    and when the function needs more than the zero arguments given;
    runs the function otherwise. *)
Definition Call_nil (v : Value) (metrics : gmap string Value)
  : Panic + list Value * gmap string Value :=
  match v with
  | Iface _ (Closure num_in variadic code) =>
      match code with
      | None => inl CallOfNilFunction
      | Some c =>
          if 0 <? needed_args num_in variadic then inl TooFewInputArguments
          else inr (body c metrics)
      end
  | _ => inl CallOfNonFunction
  end.

(** [GetOrRegister]: the entry under [name] when there is one; else the
    argument, replaced by the first result of calling it when it is of
    kind Func, is handed to [register] (whose error is dropped) and
    returned. *)
Definition GetOrRegister (name : string) (i : Value)
    (metrics : gmap string Value) : Outcome :=
  match metrics !! name with
  | Some metric => Returned metric metrics []
  | None =>
      if Kind_is_Func i then
        match Call_nil i metrics with
        | inl p => Panicked p metrics []
        | inr ([], metrics1) => Panicked IndexOutOfRange metrics1 [Called i]
        | inr (i1 :: _, metrics1) =>
            Returned i1 (register name i1 metrics1).2 [Called i]
        end
      else Returned i (register name i metrics).2 []
  end.

(** The reflective call of [GetOrRegister] goes through on [i]: [i] is
    not a function, or it is a non-nil function that needs no argument
    and yields at least one result. *)
Definition call_succeeds (i : Value) (metrics : gmap string Value) : Prop :=
  match i with
  | Iface _ (Closure num_in variadic code) =>
      ∃ c, code = Some c ∧ needed_args num_in variadic = 0
           ∧ (body c metrics).1 ≠ []
  | _ => True
  end.

(** [registered]: a new map, filled entry by entry from [r.metrics]. *)
Definition registered (metrics : gmap string Value) : gmap string Value :=
  foldl (λ copy '(name, i), <[name := i]> copy) ∅ (order metrics).

(** [Each]: ranges over the map [registered] returned, which the range
    expression yields once and nothing else refers to; the visitor runs
    with no lock held and acts, through the registry's methods, on the
    registry's own map.  The result is that map as the visitors leave it,
    and the visits made. *)
Definition Each (f : string → Value → gmap string Value → gmap string Value)
    (metrics : gmap string Value) : gmap string Value * list Event :=
  foldl (λ '(live, trace) '(name, i),
           (f name i live, trace ++ [Visited name i]))
        (metrics, []) (order (registered metrics)).

(** [RunHealthchecks]: ranges over [r.metrics] itself and calls [Check]
    on the entries whose type assertion to [Healthcheck] succeeds.  The
    read lock is held throughout, so a [Check] that returns has not
    written to the map. *)
Definition RunHealthchecks (metrics : gmap string Value) : list Event :=
  foldl (λ trace '(_, i),
           if implements i Healthcheck then trace ++ [Checked i] else trace)
        [] (order metrics).

(** [UnregisterAll]: ranges over [r.metrics] while deleting from it;
    [range] does not yield an entry removed before it is reached, and
    the body removes the entry at hand. *)
Definition UnregisterAll (metrics : gmap string Value) : gmap string Value :=
  foldl (λ live '(name, _),
           match live !! name with
           | Some _ => delete name live
           | None => live
           end)
        metrics (order metrics).

(** ** Basic facts *)

Lemma implements_recognized i c : implements i c = true → recognized i = true.
Proof.
  unfold recognized. intros H.
  destruct c; rewrite H; rewrite ?orb_true_r; reflexivity.
Qed.

Lemma recognized_implements i :
  recognized i = true → ∃ c, implements i c = true.
Proof.
  unfold recognized. intros H.
  repeat (apply orb_prop in H as [H|H]); eauto.
Qed.

Lemma not_recognized i : (∀ c, implements i c = false) → recognized i = false.
Proof.
  intros H. destruct (recognized i) eqn:E; [|done].
  apply recognized_implements in E as [c Hc]. congruence.
Qed.

Lemma register_present name i metrics first :
  metrics !! name = Some first →
  register name i metrics = (Some (DuplicateMetric name), metrics).
Proof. intros H. unfold register. by rewrite H. Qed.

Lemma register_absent name i metrics :
  metrics !! name = None →
  register name i metrics
  = (None, if recognized i then <[name := i]> metrics else metrics).
Proof. intros H. unfold register. by rewrite H. Qed.

(** C1: when [name] already has an entry, [Register name i] answers
    [DuplicateMetric name] and leaves the registry as it was; [Get name]
    still yields the instance registered first, whatever [i] is. *)
Theorem Register_duplicate name i metrics first :
  metrics !! name = Some first →
  Register name i metrics = (Some (DuplicateMetric name), metrics)
  ∧ Get name (Register name i metrics).2 = first.
Proof.
  intros H. unfold Register. rewrite (register_present _ _ _ _ H).
  split; [done|]. unfold Get. simpl. by rewrite H.
Qed.

(** C2: when [name] has no entry and [i] satisfies one of the seven
    recognized interfaces, [Register name i] answers no error and a
    following [Get name] yields [i] itself. *)
Theorem Register_fresh_recognized name i c metrics :
  metrics !! name = None →
  implements i c = true →
  (Register name i metrics).1 = None
  ∧ Get name (Register name i metrics).2 = i.
Proof.
  intros Hn Hc. unfold Register. rewrite (register_absent _ _ _ Hn).
  rewrite (implements_recognized _ _ Hc). simpl. split; [done|].
  unfold Get. by rewrite lookup_insert_eq.
Qed.

(** C3: when [name] has no entry and [i] satisfies none of the recognized
    interfaces, [Register name i] answers no error, the registry is
    unchanged (no entry is made), and a following [Get name] yields nil. *)
Theorem Register_fresh_unrecognized name i metrics :
  metrics !! name = None →
  (∀ c, implements i c = false) →
  Register name i metrics = (None, metrics)
  ∧ (Register name i metrics).2 !! name = None
  ∧ Get name (Register name i metrics).2 = Nil.
Proof.
  intros Hn Hc. unfold Register. rewrite (register_absent _ _ _ Hn).
  rewrite (not_recognized _ Hc). simpl. unfold Get. by rewrite Hn.
Qed.

(** ** The loops over the map *)

#[local] Instance visit_of_inj : Inj (=) (=) visit_of.
Proof. intros [??] [??] [= -> ->]. done. Qed.

Lemma order_NoDup metrics : NoDup (order metrics).
Proof. rewrite order_perm. apply NoDup_map_to_list. Qed.

Lemma order_lookup metrics name i :
  (name, i) ∈ order metrics ↔ metrics !! name = Some i.
Proof. rewrite order_perm. apply elem_of_map_to_list. Qed.

Lemma copy_loop (l : list (string * Value)) (copy : gmap string Value) :
  foldl (λ copy '(name, i), <[name := i]> copy) copy l
  = list_to_map (reverse l) ∪ copy.
Proof.
  revert copy. induction l as [|[name i] l IH]; intros copy; simpl.
  - by rewrite (left_id_L ∅ (∪)).
  - rewrite IH, reverse_cons, list_to_map_app. simpl.
    rewrite insert_empty, <-(assoc_L (∪)).
    by rewrite <-insert_union_singleton_l.
Qed.

Lemma registered_copy metrics : registered metrics = metrics.
Proof.
  unfold registered. rewrite copy_loop, (right_id_L ∅ (∪)).
  rewrite <-(list_to_map_to_list metrics) at 2.
  apply list_to_map_proper.
  - rewrite reverse_Permutation, order_perm. apply NoDup_fst_map_to_list.
  - by rewrite reverse_Permutation, order_perm.
Qed.

Lemma delete_loop (l : list (string * Value)) (live : gmap string Value) name :
  foldl (λ live '(name, _),
           match live !! name with
           | Some _ => delete name live
           | None => live
           end) live l !! name
  = if decide (name ∈ l.*1) then None else live !! name.
Proof.
  revert live. induction l as [|[n i] l IH]; intros live; [done|].
  cbn [foldl]. rewrite IH, fmap_cons. cbn [fst].
  assert (match live !! n with Some _ => delete n live | None => live end
          = delete n live) as ->.
  { destruct (live !! n) eqn:E; [done|]. by rewrite delete_id. }
  destruct (decide (n = name)) as [->|Hne].
  - rewrite lookup_delete_eq. rewrite (decide_True _ _ (list_elem_of_here _ _)).
    by case_decide.
  - rewrite lookup_delete_ne by done.
    destruct (decide (name ∈ l.*1)) as [Hin|Hnin].
    + by rewrite decide_True by (by apply list_elem_of_further).
    + rewrite decide_False; [done|].
      by intros [?|?]%elem_of_cons.
Qed.

Lemma UnregisterAll_empty metrics : UnregisterAll metrics = ∅.
Proof.
  apply map_eq. intros name. unfold UnregisterAll.
  rewrite delete_loop, lookup_empty.
  destruct (decide _) as [|Hn]; [done|].
  destruct (metrics !! name) as [i|] eqn:E; [|done].
  exfalso. apply Hn. apply list_elem_of_fmap. exists (name, i).
  split; [done|]. by apply order_lookup.
Qed.

Lemma visit_loop f (l : list (string * Value)) (live : gmap string Value) trace :
  (foldl (λ '(live, trace) '(name, i),
            (f name i live, trace ++ [Visited name i]))
         (live, trace) l).2
  = trace ++ (visit_of <$> l).
Proof.
  revert live trace. induction l as [|[name i] l IH]; intros live trace; simpl.
  - by rewrite app_nil_r.
  - rewrite IH. by rewrite <-(assoc_L (++)).
Qed.

Lemma Each_trace f metrics :
  (Each f metrics).2 = visit_of <$> order metrics.
Proof. unfold Each. by rewrite visit_loop, registered_copy. Qed.

Lemma check_loop (l : list (string * Value)) trace :
  foldl (λ trace '(_, i),
           if implements i Healthcheck then trace ++ [Checked i] else trace)
        trace l
  = trace ++ omap check_of l.
Proof.
  revert trace. induction l as [|[name i] l IH]; intros trace; simpl.
  - by rewrite app_nil_r.
  - rewrite IH. unfold check_of at 2. simpl.
    destruct (implements i Healthcheck); [|done].
    by rewrite <-(assoc_L (++)).
Qed.

Lemma calls_Permutation e l1 l2 : l1 ≡ₚ l2 → calls e l1 = calls e l2.
Proof. intros H. unfold calls. by rewrite H. Qed.

Lemma calls_NoDup e l :
  NoDup l → calls e l = if decide (e ∈ l) then 1 else 0.
Proof.
  unfold calls. induction 1 as [|x l Hx Hl IH]; [done|].
  rewrite filter_cons. destruct (decide (e = x)) as [->|Hne].
  - cbn [length]. rewrite IH, (decide_False _ _ Hx).
    by rewrite (decide_True _ _ (list_elem_of_here _ _)).
  - rewrite IH. destruct (decide (e ∈ l)) as [Hin|Hnin].
    + by rewrite decide_True by (by apply list_elem_of_further).
    + rewrite decide_False; [done|].
      by intros [?|?]%elem_of_cons.
Qed.

(** ** GetOrRegister *)

Lemma GetOrRegister_present name i metrics metric :
  metrics !! name = Some metric →
  GetOrRegister name i metrics = Returned metric metrics [].
Proof. intros H. unfold GetOrRegister. by rewrite H. Qed.

Lemma GetOrRegister_literal name i metrics :
  metrics !! name = None →
  Kind_is_Func i = false →
  GetOrRegister name i metrics = Returned i (register name i metrics).2 [].
Proof. intros Hn Hk. unfold GetOrRegister. by rewrite Hn, Hk. Qed.

Lemma GetOrRegister_factory name methods num_in variadic c metrics i1 rest metrics1 :
  metrics !! name = None →
  needed_args num_in variadic = 0 →
  body c metrics = (i1 :: rest, metrics1) →
  GetOrRegister name (Iface methods (Closure num_in variadic (Some c))) metrics
  = Returned i1 (register name i1 metrics1).2
      [Called (Iface methods (Closure num_in variadic (Some c)))].
Proof.
  intros Hn Ha Hb. unfold GetOrRegister. rewrite Hn. simpl.
  by rewrite Ha, Hb.
Qed.


(** C4 (amended): when [name] has an entry, [GetOrRegister name f] returns
    the stored instance, leaves the registry as it was and makes no call.
    When [name] has no entry and [f] is a function that can be called with
    no argument and yields a result, [GetOrRegister name f] calls [f]
    exactly once and returns its first result; that result is stored
    under [name] (when it is recognized) provided [f] has not itself
    registered [name] while it ran, and otherwise the entry [f] made
    stays. *)
Theorem GetOrRegister_get_or_create name f metrics :
  (∀ metric, metrics !! name = Some metric →
     GetOrRegister name f metrics = Returned metric metrics []
     ∧ calls (Called f) (trace_of (GetOrRegister name f metrics)) = 0)
  ∧ (∀ methods num_in variadic c result rest metrics1,
       metrics !! name = None →
       f = Iface methods (Closure num_in variadic (Some c)) →
       needed_args num_in variadic = 0 →
       body c metrics = (result :: rest, metrics1) →
       calls (Called f) (trace_of (GetOrRegister name f metrics)) = 1
       ∧ (∃ metrics2,
            GetOrRegister name f metrics = Returned result metrics2 [Called f])
       ∧ (metrics1 !! name = None →
          GetOrRegister name f metrics
          = Returned result
              (if recognized result then <[name := result]> metrics1
               else metrics1)
              [Called f])
       ∧ (∀ first, metrics1 !! name = Some first →
          GetOrRegister name f metrics = Returned result metrics1 [Called f])).
Proof.
  split.
  - intros metric H. by rewrite (GetOrRegister_present _ _ _ _ H).
  - intros methods num_in variadic c result rest metrics1 Hn -> Ha Hb.
    rewrite (GetOrRegister_factory _ _ _ _ _ _ _ _ _ Hn Ha Hb).
    split; [|split; [|split]].
    + unfold calls. simpl. rewrite filter_cons, decide_True by done.
      by rewrite filter_nil.
    + eauto.
    + intros H1. by rewrite (register_absent _ _ _ H1).
    + intros first H1. by rewrite (register_present _ _ _ _ H1).
Qed.

(** C5 (amended): [GetOrRegister] returns a value, and no error, for
    every name and argument except where the name has no entry and the
    reflective call panics (the argument is a nil function, a function
    that needs arguments, or one without results).  In particular, when
    the function it called has itself registered [name], the inner
    [register] answers [DuplicateMetric name], the call still returns the
    function's result and the entry made first stays.  [Register] answers
    an error only for a name that has an entry, and that error is
    [DuplicateMetric name]. *)
Theorem GetOrRegister_no_duplicate_error name i metrics :
  ((∃ v metrics2 trace,
      GetOrRegister name i metrics = Returned v metrics2 trace)
   ↔ (metrics !! name = None → call_succeeds i metrics))
  ∧ (∀ methods num_in variadic c i1 rest metrics1 first,
       metrics !! name = None →
       i = Iface methods (Closure num_in variadic (Some c)) →
       needed_args num_in variadic = 0 →
       body c metrics = (i1 :: rest, metrics1) →
       metrics1 !! name = Some first →
       (register name i1 metrics1).1 = Some (DuplicateMetric name)
       ∧ GetOrRegister name i metrics = Returned i1 metrics1 [Called i])
  ∧ (∀ e, (Register name i metrics).1 = Some e →
       e = DuplicateMetric name ∧ is_Some (metrics !! name)).
Proof.
  split; [|split].
  - destruct (metrics !! name) as [metric|] eqn:Hn.
    { rewrite (GetOrRegister_present _ _ _ _ Hn).
      split; [done|]. intros _. by do 3 eexists. }
    destruct i as [|methods [addr|num_in variadic code]];
      try (rewrite GetOrRegister_literal by done;
           split; [done|]; intros _; by do 3 eexists).
    split.
    + intros (v & metrics2 & trace & Hret) _. revert Hret.
      unfold GetOrRegister, call_succeeds. rewrite Hn. simpl.
      destruct code as [c|]; [|done].
      destruct (needed_args num_in variadic) as [|n] eqn:Ha; [|done].
      simpl. destruct (body c metrics) as [[|i1 rest] metrics1] eqn:Hb;
        [done|].
      intros _. exists c. by rewrite Hb.
    + intros Hok. destruct (Hok eq_refl) as (c & -> & Ha & Hres).
      destruct (body c metrics) as [[|i1 rest] metrics1] eqn:Hb; [done|].
      rewrite (GetOrRegister_factory _ _ _ _ _ _ _ _ _ Hn Ha Hb).
      by do 3 eexists.
  - intros methods num_in variadic c i1 rest metrics1 first Hn -> Ha Hb H1.
    rewrite (GetOrRegister_factory _ _ _ _ _ _ _ _ _ Hn Ha Hb).
    by rewrite (register_present _ _ _ _ H1).
  - intros e. unfold Register, register.
    destruct (metrics !! name); simpl; [|done].
    intros [= <-]. eauto.
Qed.


(** C10 (amended): for a name with no entry and an argument that is
    neither a function value (whatever its parameters) nor of a
    recognized type, [GetOrRegister] returns the
    argument itself, calls nothing and leaves the registry as it was: no
    entry is made, so a following [Get] yields nil, which differs from
    what the caller received whenever the argument is not nil itself. *)
Theorem GetOrRegister_unrecognized_literal name i metrics :
  metrics !! name = None →
  Kind_is_Func i = false →
  (∀ c, implements i c = false) →
  GetOrRegister name i metrics = Returned i metrics []
  ∧ metrics !! name = None
  ∧ Get name metrics = Nil
  ∧ (i ≠ Nil → Get name metrics ≠ i).
Proof.
  intros Hn Hk Hc.
  rewrite (GetOrRegister_literal _ _ _ Hn Hk), (register_absent _ _ _ Hn).
  rewrite (not_recognized _ Hc). unfold Get. rewrite Hn. simpl.
  repeat split. by intros ? <-.
Qed.

(** ** Each, RunHealthchecks, UnregisterAll *)

Lemma RunHealthchecks_trace metrics :
  RunHealthchecks metrics = omap check_of (order metrics).
Proof. unfold RunHealthchecks. by rewrite check_loop. Qed.

Lemma check_of_Some entry h :
  check_of entry = Some (Checked h)
  ↔ entry.2 = h ∧ implements h Healthcheck = true.
Proof.
  unfold check_of. destruct (implements entry.2 Healthcheck) eqn:E.
  - split; [by intros [= <-]|by intros [-> _]].
  - split; [done|]. intros [<- ?]. congruence.
Qed.

Lemma calls_check_of h (l : list (string * Value)) :
  implements h Healthcheck = true →
  calls (Checked h) (omap check_of l)
  = length (filter (λ entry, entry.2 = h) l).
Proof.
  intros Hh. unfold calls. induction l as [|[name i] l IH]; [done|].
  rewrite filter_cons. cbn [omap list_omap]. unfold check_of at 1. cbn [snd].
  destruct (decide (i = h)) as [->|Hne].
  - rewrite Hh, filter_cons, decide_True by done. cbn [length]. by f_equal.
  - destruct (implements i Healthcheck); [|done].
    rewrite filter_cons, decide_False; [done|]. by intros [= ->].
Qed.

(** C8: [RunHealthchecks] makes one call of [Check] for each entry whose
    value satisfies [Healthcheck] and none for any other entry: the calls
    are, in some order, those of the healthcheck entries; [Check] is
    called on [h] only if [h] is a registered healthcheck, and then as
    many times as there are entries holding [h]. *)
Theorem RunHealthchecks_checks_each_once metrics :
  RunHealthchecks metrics ≡ₚ omap check_of (map_to_list metrics)
  ∧ (∀ h, Checked h ∈ RunHealthchecks metrics
          ↔ implements h Healthcheck = true
            ∧ ∃ name, metrics !! name = Some h)
  ∧ (∀ h, implements h Healthcheck = true →
          calls (Checked h) (RunHealthchecks metrics)
          = length (filter (λ entry, entry.2 = h) (map_to_list metrics)))
  ∧ (∀ h, implements h Healthcheck = false →
          calls (Checked h) (RunHealthchecks metrics) = 0).
Proof.
  assert (RunHealthchecks metrics ≡ₚ omap check_of (map_to_list metrics))
    as Hperm by (by rewrite RunHealthchecks_trace, order_perm).
  assert (∀ h, Checked h ∈ RunHealthchecks metrics
               ↔ implements h Healthcheck = true
                 ∧ ∃ name, metrics !! name = Some h) as Hin.
  { intros h. rewrite Hperm, list_elem_of_omap. split.
    - intros ([name i] & Hi%elem_of_map_to_list & [Heq ?]%check_of_Some).
      simpl in Heq. subst i. eauto.
    - intros [Hh [name Hn]]. exists (name, h).
      split; [by apply elem_of_map_to_list|]. by apply check_of_Some. }
  split; [done|]. split; [done|]. split.
  - intros h Hh. rewrite (calls_Permutation _ _ _ Hperm).
    by apply calls_check_of.
  - intros h Hh. unfold calls.
    destruct (filter _ _) as [|e l] eqn:E; [done|].
    assert (e ∈ filter (Checked h =.) (RunHealthchecks metrics)) as He
      by (rewrite E; left).
    apply list_elem_of_filter in He as [<- He].
    apply Hin in He as [? _]. congruence.
Qed.

Lemma order_empty : order ∅ = [].
Proof.
  apply Permutation_nil_r. by rewrite order_perm, map_to_list_empty.
Qed.

(** C9: [UnregisterAll] removes every entry, from any state, so a
    following [Each] makes no call of its visitor; doing it twice leaves
    what doing it once leaves.  It returns nothing (its only result is the
    registry it leaves). *)
Theorem UnregisterAll_clears f metrics :
  UnregisterAll metrics = ∅
  ∧ (∀ name, Get name (UnregisterAll metrics) = Nil)
  ∧ (Each f (UnregisterAll metrics)).2 = []
  ∧ UnregisterAll (UnregisterAll metrics) = UnregisterAll metrics.
Proof.
  rewrite !UnregisterAll_empty. repeat split.
  - by rewrite Each_trace, order_empty.
Qed.

End Registry.

(** ** The spec's scenario, run on the model *)

Example scenario_requests :
  let r0 := NewReadWriteRegistry in
  let '(e1, r1) := Register "requests" counterA r0 in
  let '(e2, r2) := Register "requests" counterB r1 in
  let r3 := Unregister "requests" r2 in
  let '(e4, r4) := Register "requests" counterB r3 in
  e1 = None ∧ e2 = Some (DuplicateMetric "requests")
  ∧ Get "requests" r2 = counterA ∧ Get "requests" r3 = Nil
  ∧ e4 = None ∧ Get "requests" r4 = counterB.
Proof. vm_compute. repeat split. Qed.

Example scenario_factories :
  GetOrRegister sample_body "hits" newCounter ∅
  = Returned counterB (<["hits" := counterB]> ∅) [Called newCounter]
  ∧ GetOrRegister sample_body "requests" newCounter sample_metrics
    = Returned counterA sample_metrics []
  ∧ GetOrRegister sample_body "note" label ∅ = Returned label ∅ []
  ∧ GetOrRegister sample_body "nil" Nil ∅ = Returned Nil ∅ []
  ∧ GetOrRegister sample_body "f" (Iface [] (Closure 0 false None)) ∅
    = Panicked CallOfNilFunction ∅ []
  ∧ GetOrRegister sample_body "v" (Iface [] (Closure 1 true (Some 0))) ∅
    = Returned counterB (<["v" := counterB]> ∅)
        [Called (Iface [] (Closure 1 true (Some 0)))].
Proof. repeat split. Qed.

Example scenario_loops :
  (Each map_to_list meddling_visitor sample_metrics).2
  = [Visited "requests" counterA; Visited "db" dbCheck]
  ∧ (Each map_to_list meddling_visitor sample_metrics).1
    = <["db.seen" := counterB]> (<["requests.seen" := counterB]> ∅)
  ∧ RunHealthchecks map_to_list sample_metrics = [Checked dbCheck]
  ∧ UnregisterAll map_to_list sample_metrics = ∅.
Proof. repeat split. Qed.

(** ** The theorems at sample inputs *)

Lemma Register_duplicate_witness :
  sample_metrics !! "requests" = Some counterA
  ∧ Register "requests" counterB sample_metrics
    = (Some (DuplicateMetric "requests"), sample_metrics)
  ∧ Get "requests" (Register "requests" counterB sample_metrics).2 = counterA.
Proof.
  split; [reflexivity|].
  apply (Register_duplicate "requests" counterB sample_metrics counterA).
  reflexivity.
Defined.

Lemma Register_fresh_recognized_witness :
  sample_metrics !! "hits" = None
  ∧ implements counterB Counter = true
  ∧ (Register "hits" counterB sample_metrics).1 = None
  ∧ Get "hits" (Register "hits" counterB sample_metrics).2 = counterB.
Proof.
  split; [reflexivity|]. split; [reflexivity|].
  apply (Register_fresh_recognized "hits" counterB Counter sample_metrics);
    reflexivity.
Defined.

Lemma Register_fresh_unrecognized_witness :
  sample_metrics !! "note" = None
  ∧ (∀ c, implements label c = false)
  ∧ Register "note" label sample_metrics = (None, sample_metrics)
  ∧ (Register "note" label sample_metrics).2 !! "note" = None
  ∧ Get "note" (Register "note" label sample_metrics).2 = Nil.
Proof.
  split; [reflexivity|]. split; [by intros []|].
  apply (Register_fresh_unrecognized "note" label sample_metrics);
    [reflexivity|by intros []].
Defined.

Lemma GetOrRegister_get_or_create_witness :
  (GetOrRegister sample_body "requests" newCounter sample_metrics
   = Returned counterA sample_metrics []
   ∧ calls (Called newCounter)
       (trace_of (GetOrRegister sample_body "requests" newCounter
                    sample_metrics)) = 0)
  ∧ calls (Called newCounter)
      (trace_of (GetOrRegister sample_body "hits" newCounter sample_metrics))
    = 1
  ∧ GetOrRegister sample_body "hits" newCounter sample_metrics
    = Returned counterB (<["hits" := counterB]> sample_metrics)
        [Called newCounter].
Proof.
  split.
  - apply (proj1 (GetOrRegister_get_or_create sample_body "requests"
                    newCounter sample_metrics) counterA).
    reflexivity.
  - destruct (proj2 (GetOrRegister_get_or_create sample_body "hits"
                       newCounter sample_metrics)
                [] 0 false 0 counterB [] sample_metrics
                eq_refl eq_refl eq_refl eq_refl) as (Hcalls & _ & Hstored & _).
    split; [exact Hcalls|exact (Hstored eq_refl)].
Defined.

(** C4, as stated, fails: ["requests"] has no entry and the factory yields
    the recognized [counterB], yet [counterB] is not what the registry
    holds under ["requests"] afterwards, because the factory registered
    [counterA] under that name while it ran. *)
Lemma GetOrRegister_result_not_stored :
  (∅ : gmap string Value) !! "requests" = None
  ∧ recognized counterB = true
  ∧ GetOrRegister sample_body "requests" registeringFactory ∅
    = Returned counterB (<["requests" := counterA]> ∅)
        [Called registeringFactory]
  ∧ Get "requests" (<["requests" := counterA]> ∅) = counterA
  ∧ counterA ≠ counterB.
Proof. repeat split. discriminate. Qed.

Lemma GetOrRegister_no_duplicate_error_witness :
  (∃ v metrics2 trace,
     GetOrRegister sample_body "requests" registeringFactory ∅
     = Returned v metrics2 trace)
  ∧ (register "requests" counterB (<["requests" := counterA]> ∅)).1
    = Some (DuplicateMetric "requests")
  ∧ GetOrRegister sample_body "requests" registeringFactory ∅
    = Returned counterB (<["requests" := counterA]> ∅)
        [Called registeringFactory].
Proof.
  destruct (GetOrRegister_no_duplicate_error sample_body "requests"
              registeringFactory ∅) as (Hret & Hcollide & _).
  split.
  - apply Hret. intros _. exists 1. repeat split. discriminate.
  - apply (Hcollide [] 0 false 1 counterB [] (<["requests" := counterA]> ∅)
             counterA); reflexivity.
Defined.

(** C5, as stated, fails: handed a function that needs an argument,
    [GetOrRegister] panics in the reflective call and returns nothing. *)
Lemma GetOrRegister_panics_on_uncallable :
  GetOrRegister sample_body "latency" newHistogram ∅
  = Panicked TooFewInputArguments ∅ []
  ∧ ¬ ∃ v metrics2 trace,
        GetOrRegister sample_body "latency" newHistogram ∅
        = Returned v metrics2 trace.
Proof. split; [reflexivity|]. intros (v & m & t & H). discriminate H. Qed.



Lemma GetOrRegister_unrecognized_literal_witness :
  sample_metrics !! "note" = None
  ∧ Kind_is_Func label = false
  ∧ (∀ c, implements label c = false)
  ∧ GetOrRegister sample_body "note" label sample_metrics
    = Returned label sample_metrics []
  ∧ sample_metrics !! "note" = None
  ∧ Get "note" sample_metrics = Nil
  ∧ (label ≠ Nil → Get "note" sample_metrics ≠ label).
Proof.
  split; [reflexivity|]. split; [reflexivity|]. split; [by intros []|].
  apply (GetOrRegister_unrecognized_literal sample_body "note" label
           sample_metrics); [reflexivity|reflexivity|by intros []].
Defined.


Lemma RunHealthchecks_checks_each_once_witness :
  (∀ metrics : gmap string Value, map_to_list metrics ≡ₚ map_to_list metrics)
  ∧ RunHealthchecks map_to_list sample_metrics
    ≡ₚ omap check_of (map_to_list sample_metrics)
  ∧ calls (Checked dbCheck) (RunHealthchecks map_to_list sample_metrics) = 1
  ∧ calls (Checked counterA) (RunHealthchecks map_to_list sample_metrics) = 0.
Proof.
  split; [reflexivity|].
  destruct (RunHealthchecks_checks_each_once map_to_list
              (λ _, reflexivity _) sample_metrics)
    as (Hperm & _ & Hhealth & Hother).
  split; [exact Hperm|]. split.
  - exact (Hhealth dbCheck eq_refl).
  - exact (Hother counterA eq_refl).
Defined.

Lemma UnregisterAll_clears_witness :
  (∀ metrics : gmap string Value, map_to_list metrics ≡ₚ map_to_list metrics)
  ∧ UnregisterAll map_to_list sample_metrics = ∅
  ∧ (∀ name, Get name (UnregisterAll map_to_list sample_metrics) = Nil)
  ∧ (Each map_to_list meddling_visitor
       (UnregisterAll map_to_list sample_metrics)).2 = []
  ∧ UnregisterAll map_to_list (UnregisterAll map_to_list sample_metrics)
    = UnregisterAll map_to_list sample_metrics.
Proof.
  split; [reflexivity|].
  apply (UnregisterAll_clears map_to_list (λ _, reflexivity _)
           meddling_visitor sample_metrics).
Defined.

(** * Further properties of the methods *)

Section Properties.

Variable body : nat → gmap string Value → list Value * gmap string Value.
Variable order : gmap string Value → list (string * Value).
Hypothesis order_perm : ∀ metrics, order metrics ≡ₚ map_to_list metrics.

(** ** Unregister and Register *)

(** X1: [Unregister name] leaves no entry under [name] and touches no
    other name; on a name without an entry it changes nothing, and so
    does a second [Unregister] of the same name.  It undoes a [Register]
    under a name that had no entry: the registry is back as it was,
    whatever the value registered. *)
Theorem Unregister_removes name i metrics :
  Get name (Unregister name metrics) = Nil
  ∧ (∀ other, other ≠ name →
       Get other (Unregister name metrics) = Get other metrics)
  ∧ (metrics !! name = None → Unregister name metrics = metrics)
  ∧ Unregister name (Unregister name metrics) = Unregister name metrics
  ∧ (metrics !! name = None →
     Unregister name (Register name i metrics).2 = metrics).
Proof.
  unfold Unregister, Get. split; [by rewrite lookup_delete_eq|].
  split; [intros other H; by rewrite lookup_delete_ne|].
  split; [apply delete_id|].
  split; [apply delete_id, lookup_delete_eq|].
  intros Hn. unfold Register. rewrite (register_absent _ _ _ Hn). simpl.
  destruct (recognized i); [|by apply delete_id].
  by rewrite delete_insert_eq, delete_id.
Qed.

(** X2: an entry is replaced by unregistering it first: after
    [Unregister name], [Register name i] of a recognized [i] answers no
    error whatever was stored before, and leaves the map with [name]
    bound to [i] and every other name as it was. *)
Theorem Register_after_Unregister name i c metrics :
  implements i c = true →
  Register name i (Unregister name metrics) = (None, <[name := i]> metrics)
  ∧ Get name (Register name i (Unregister name metrics)).2 = i
  ∧ (∀ other, other ≠ name →
       Get other (Register name i (Unregister name metrics)).2
       = Get other metrics).
Proof.
  intros Hc. unfold Register, Unregister.
  rewrite register_absent by apply lookup_delete_eq.
  rewrite (implements_recognized _ _ Hc), insert_delete_eq. simpl.
  unfold Get. split; [done|]. split; [by rewrite lookup_insert_eq|].
  intros other H. by rewrite lookup_insert_ne.
Qed.

(** X3: [Register] answers [DuplicateMetric name] exactly when [name] has
    an entry and no error exactly when it has none; either way it never
    removes or replaces an entry (the map before is included in the map
    after) and never touches another name. *)
Theorem Register_keeps_entries name i metrics :
  ((Register name i metrics).1 = Some (DuplicateMetric name)
   ↔ is_Some (metrics !! name))
  ∧ ((Register name i metrics).1 = None ↔ metrics !! name = None)
  ∧ metrics ⊆ (Register name i metrics).2
  ∧ (∀ other, other ≠ name →
       (Register name i metrics).2 !! other = metrics !! other).
Proof.
  unfold Register, register.
  destruct (metrics !! name) as [first|] eqn:Hn; simpl.
  - split; [split; eauto|]. split; [split; done|]. done.
  - split; [split; [done|by intros [? ?]]|]. split; [done|].
    destruct (recognized i); [|done].
    split; [by apply insert_subseteq|].
    intros other H. by rewrite lookup_insert_ne.
Qed.

(** ** The invariant *)

Lemma only_recognized_insert name i metrics :
  recognized i = true →
  only_recognized metrics → only_recognized (<[name := i]> metrics).
Proof.
  intros Hi Hm n v. destruct (decide (name = n)) as [->|Hne].
  - rewrite lookup_insert_eq. by intros [= <-].
  - rewrite lookup_insert_ne by done. apply Hm.
Qed.

Lemma only_recognized_register name i metrics :
  only_recognized metrics → only_recognized (register name i metrics).2.
Proof.
  intros Hm. unfold register. destruct (metrics !! name); [done|]. simpl.
  destruct (recognized i) eqn:Hi; [|done].
  by apply only_recognized_insert.
Qed.

Lemma visit_loop_registry f (l : list (string * Value))
    (live : gmap string Value) (trace : list Event) :
  (foldl (λ '(live, trace) '(name, i),
            (f name i live, trace ++ [Visited name i]))
         (live, trace) l).1
  = foldl (λ live entry, f entry.1 entry.2 live) live l.
Proof.
  revert live trace. induction l as [|[name i] l IH]; intros live trace;
    [done|].
  simpl. by rewrite IH.
Qed.

Lemma Each_registry f metrics :
  (Each order f metrics).1
  = foldl (λ live entry, f entry.1 entry.2 live) metrics (order metrics).
Proof.
  unfold Each. by rewrite (registered_copy order order_perm), visit_loop_registry.
Qed.

Lemma visitors_keep (P : gmap string Value → Prop) f
    (l : list (string * Value)) (live : gmap string Value) :
  (∀ n v live, P live → P (f n v live)) →
  P live → P (foldl (λ live entry, f entry.1 entry.2 live) live l).
Proof.
  intros Hf. revert live. induction l as [|[n v] l IH]; intros live Hlive;
    [done|].
  simpl. apply IH, Hf, Hlive.
Qed.

(** X4: every method keeps the map free of unrecognized values (nil
    among them): the new registry is, and [Register], [Unregister],
    [UnregisterAll], the snapshot of [registered], [GetOrRegister] (when
    the function it calls keeps it so) and [Each] (when its visitor does)
    all leave it so. *)
Theorem methods_keep_only_recognized name i f metrics :
  only_recognized metrics →
  only_recognized NewReadWriteRegistry
  ∧ only_recognized (Register name i metrics).2
  ∧ only_recognized (Unregister name metrics)
  ∧ only_recognized (UnregisterAll order metrics)
  ∧ only_recognized (registered order metrics)
  ∧ ((∀ c, only_recognized (body c metrics).2) →
     ∀ v metrics2 trace,
       GetOrRegister body name i metrics = Returned v metrics2 trace →
       only_recognized metrics2)
  ∧ ((∀ n v live, only_recognized live → only_recognized (f n v live)) →
     only_recognized (Each order f metrics).1).
Proof.
  intros Hm. split; [by intros n v; unfold NewReadWriteRegistry;
                       rewrite lookup_empty|].
  split; [by apply only_recognized_register|].
  split. { unfold Unregister. intros n v [_ H]%lookup_delete_Some.
           by apply (Hm n). }
  split. { rewrite (UnregisterAll_empty order order_perm).
           by intros n v; rewrite lookup_empty. }
  split; [by rewrite (registered_copy order order_perm)|].
  split.
  - intros Hb v metrics2 trace. unfold GetOrRegister.
    destruct (metrics !! name); [by intros [= _ <- _]|].
    destruct (Kind_is_Func i).
    + destruct i as [|methods [addr|num_in variadic [c|]]]; simpl; try done.
      destruct (0 <? needed_args num_in variadic); [done|].
      specialize (Hb c).
      destruct (body c metrics) as [[|i1 rest] metrics1]; [done|].
      intros [= _ <- _]. by apply only_recognized_register.
    + intros [= _ <- _]. by apply only_recognized_register.
  - intros Hf. rewrite Each_registry. by apply visitors_keep.
Qed.

(** X5: in a map that holds only recognized values, the nil that [Get]
    answers means exactly that the name has no entry. *)
Theorem Get_nil_iff_absent name metrics :
  only_recognized metrics →
  Get name metrics = Nil ↔ metrics !! name = None.
Proof.
  intros Hm. unfold Get. destruct (metrics !! name) as [i|] eqn:Hn; [|done].
  simpl. split; [|done]. intros ->. by specialize (Hm _ _ Hn).
Qed.

(** ** Each on map objects *)

#[local] Existing Instance visit_of_inj.

Lemma copy_loop_obj l (entries : list (string * Value))
    (copy : gmap string Value) (heap : gmap nat (gmap string Value)) :
  foldl (λ heap '(name, i), alter (insert name i) l heap)
        (<[l := copy]> heap) entries
  = <[l := foldl (λ copy '(name, i), <[name := i]> copy) copy entries]> heap.
Proof.
  revert copy. induction entries as [|[name i] entries IH]; intros copy;
    [done|].
  simpl. by rewrite alter_insert_eq, IH.
Qed.

Lemma registered_obj r (heap : gmap nat (gmap string Value)) metrics :
  heap !! r = Some metrics →
  fresh (dom heap) ≠ r
  ∧ Objects.registered order r heap
    = (fresh (dom heap), <[fresh (dom heap) := metrics]> heap).
Proof.
  intros Hr.
  assert (fresh (dom heap) ≠ r) as Hl.
  { intros Heq. apply (is_fresh (dom heap)). rewrite Heq.
    apply elem_of_dom. eauto. }
  split; [done|]. unfold Objects.registered, Objects.make.
  rewrite lookup_total_insert_ne by done.
  rewrite (lookup_total_correct _ _ _ Hr), copy_loop_obj.
  do 2 f_equal. apply (registered_copy order order_perm).
Qed.

Lemma visit_loop_obj f l r metrics (entries : list (string * Value))
    (live : gmap string Value) (heap : gmap nat (gmap string Value)) trace :
  l ≠ r →
  heap !! l = Some metrics →
  heap !! r = Some live →
  (∀ name i, (name, i) ∈ entries → metrics !! name = Some i) →
  foldl (λ '(heap, trace) '(name, _),
           match (heap !!! l) !! name with
           | Some i => (alter (f name i) r heap, trace ++ [Visited name i])
           | None => (heap, trace)
           end)
        (heap, trace) entries
  = (<[r := foldl (λ live entry, f entry.1 entry.2 live) live entries]> heap,
     trace ++ (visit_of <$> entries)).
Proof.
  intros Hlr. revert live heap trace.
  induction entries as [|[name i] entries IH];
    intros live heap trace Hl Hr Hin.
  - simpl. by rewrite insert_id, app_nil_r.
  - cbn [foldl]. rewrite (lookup_total_correct _ _ _ Hl).
    rewrite (Hin name i) by left.
    rewrite (IH (f name i live)).
    + rewrite insert_alter_eq. cbn [fmap list_fmap].
      by rewrite <-(assoc_L (++)).
    + by rewrite lookup_alter_ne.
    + by rewrite lookup_alter_eq, Hr.
    + intros n v H. apply Hin. by right.
Qed.

(** C7: with the registry's map at [r] in the heap, [Each f] ranges over
    a map object of its own: [registered] returns a new object [l],
    different from [r], holding the entries the registry has at that
    moment.  The visitor is called exactly once for each of these
    (name, metric) pairs and for nothing else, whatever it does to the
    registry's map; each call acts on the registry's map at [r], which
    ends up as the visitor's actions leave it, while the object iterated
    still holds the entries of the snapshot.  The calls made and the map
    left at [r] are those of [Each] on maps as values. *)
Theorem Each_visits_snapshot_once f r (heap : gmap nat (gmap string Value))
    metrics :
  heap !! r = Some metrics →
  let l := fresh (dom heap) in
  let after := Objects.Each order f r heap in
  l ≠ r
  ∧ Objects.registered order r heap = (l, <[l := metrics]> heap)
  ∧ after
    = (<[r := foldl (λ live entry, f entry.1 entry.2 live)
                 metrics (order metrics)]> (<[l := metrics]> heap),
       visit_of <$> order metrics)
  ∧ after.2 ≡ₚ visit_of <$> map_to_list metrics
  ∧ (∀ name i,
       calls (Visited name i) after.2
       = if decide (metrics !! name = Some i) then 1 else 0)
  ∧ after.1 !! l = Some metrics
  ∧ (∀ other, other ≠ l → other ≠ r → after.1 !! other = heap !! other)
  ∧ Each order f metrics = (after.1 !!! r, after.2)
  ∧ registered order metrics = metrics.
Proof.
  intros Hr l after.
  destruct (registered_obj r heap metrics Hr) as [Hlr Hreg]. fold l in Hlr, Hreg.
  assert (after
          = (<[r := foldl (λ live entry, f entry.1 entry.2 live)
                       metrics (order metrics)]> (<[l := metrics]> heap),
             visit_of <$> order metrics)) as Hafter.
  { unfold after, Objects.Each. rewrite Hreg.
    rewrite lookup_total_insert_eq.
    rewrite (visit_loop_obj f l r metrics (order metrics) metrics); try done.
    - apply lookup_insert_eq.
    - by rewrite lookup_insert_ne.
    - intros name i. apply (order_lookup order order_perm). }
  split; [done|]. split; [done|]. split; [done|]. rewrite Hafter. simpl.
  split; [by rewrite order_perm|]. split.
  { intros name i.
    rewrite calls_NoDup
      by (apply (NoDup_fmap_2 _), (order_NoDup order order_perm)).
    change (Visited name i) with (visit_of (name, i)).
    destruct (decide (metrics !! name = Some i)) as [H|H].
    - rewrite decide_True; [done|].
      by apply list_elem_of_fmap_2, (order_lookup order order_perm).
    - rewrite decide_False; [done|].
      intros Hin. apply H, (order_lookup order order_perm).
      by apply (list_elem_of_fmap_inj visit_of). }
  split; [by rewrite lookup_insert_ne, lookup_insert_eq|].
  split; [by intros other ??; rewrite !lookup_insert_ne|].
  split; [|apply (registered_copy order order_perm)].
  rewrite lookup_total_insert_eq.
  rewrite <-(Each_registry f metrics), <-(Each_trace order order_perm f metrics).
  by destruct (Each order f metrics).
Qed.

(** ** GetOrRegister *)

(** X6: [GetOrRegister] panics exactly when the name has no entry and
    the argument is a function that is nil, needs arguments or yields no
    result, and in each case with its own panic.  On a nil function and
    on a function that needs arguments it panics before anything is
    called, with the map as it was; on a function without results it
    panics after the call, with the map as the function left it.  It
    never reaches [Call] with something that is not a function. *)
Theorem GetOrRegister_panics name i metrics p metrics2 trace :
  GetOrRegister body name i metrics = Panicked p metrics2 trace
  ↔ metrics !! name = None
    ∧ ∃ methods num_in variadic code,
        i = Iface methods (Closure num_in variadic code)
        ∧ match p with
          | CallOfNonFunction => False
          | CallOfNilFunction =>
              code = None ∧ metrics2 = metrics ∧ trace = []
          | TooFewInputArguments =>
              is_Some code ∧ 0 < needed_args num_in variadic
              ∧ metrics2 = metrics ∧ trace = []
          | IndexOutOfRange =>
              (∃ c, code = Some c ∧ body c metrics = ([], metrics2))
              ∧ needed_args num_in variadic = 0 ∧ trace = [Called i]
          end.
Proof.
  split.
  - unfold GetOrRegister. destruct (metrics !! name); [done|].
    destruct i as [|methods [addr|num_in variadic code]]; simpl; try done.
    intros H. split; [done|]. exists methods, num_in, variadic, code.
    split; [done|]. destruct code as [c|].
    + destruct (needed_args num_in variadic) as [|n] eqn:Ha; simpl in H.
      * destruct (body c metrics) as [[|i1 rest] metrics1] eqn:Hb; [|done].
        injection H as <- <- <-. eauto.
      * injection H as <- <- <-. repeat split; [eauto|lia].
    + by injection H as <- <- <-.
  - intros (Hn & methods & num_in & variadic & code & -> & Hp).
    unfold GetOrRegister. rewrite Hn. simpl. destruct p.
    + done.
    + by destruct Hp as (-> & -> & ->).
    + destruct Hp as ([c ->] & Ha & -> & ->).
      by destruct (needed_args num_in variadic); [lia|].
    + destruct Hp as ((c & -> & Hb) & Ha & ->). by rewrite Ha, Hb.
Qed.

(** X7: handed a recognized value that is not a function,
    [GetOrRegister] always returns, calls nothing, and what it returns
    is what the registry holds under [name] afterwards; from then on
    [GetOrRegister name] returns that same instance for any argument
    (even one that cannot be called), makes no call and changes nothing.
    No entry that was there is removed or replaced. *)
Theorem GetOrRegister_then_Get name i c metrics :
  Kind_is_Func i = false →
  implements i c = true →
  ∃ v metrics2,
    GetOrRegister body name i metrics = Returned v metrics2 []
    ∧ Get name metrics2 = v
    ∧ metrics2 !! name = Some v
    ∧ metrics ⊆ metrics2
    ∧ (∀ j, GetOrRegister body name j metrics2 = Returned v metrics2 []).
Proof.
  intros Hk Hc. destruct (metrics !! name) as [metric|] eqn:Hn.
  - exists metric, metrics.
    rewrite (GetOrRegister_present body _ _ _ _ Hn). unfold Get. rewrite Hn.
    repeat split; [done|]. intros j. by apply GetOrRegister_present.
  - exists i, (<[name := i]> metrics).
    rewrite (GetOrRegister_literal body _ _ _ Hn Hk).
    rewrite (register_absent _ _ _ Hn), (implements_recognized _ _ Hc).
    unfold Get. rewrite lookup_insert_eq.
    repeat split; [by apply insert_subseteq|].
    intros j. apply GetOrRegister_present, lookup_insert_eq.
Qed.

(** X8: a factory whose result is not recognized (a nil metric, say) gets
    that result returned but nothing stored: when the factory leaves the
    map alone, [GetOrRegister] leaves it as it found it, the name still
    has no entry, and the next [GetOrRegister] of the same name calls the
    factory again. *)
Theorem GetOrRegister_unrecognized_result
    name methods num_in variadic c metrics result rest :
  metrics !! name = None →
  needed_args num_in variadic = 0 →
  body c metrics = (result :: rest, metrics) →
  (∀ cap, implements result cap = false) →
  let f := Iface methods (Closure num_in variadic (Some c)) in
  GetOrRegister body name f metrics = Returned result metrics [Called f]
  ∧ Get name metrics = Nil
  ∧ ∀ metrics2 trace,
      GetOrRegister body name f metrics = Returned result metrics2 trace →
      GetOrRegister body name f metrics2
      = Returned result metrics2 [Called f].
Proof.
  intros Hn Ha Hb Hr f.
  assert (GetOrRegister body name f metrics
          = Returned result metrics [Called f]) as Hret.
  { unfold f. rewrite (GetOrRegister_factory body _ _ _ _ _ _ _ _ _ Hn Ha Hb).
    by rewrite (register_absent _ _ _ Hn), (not_recognized _ Hr). }
  split; [done|]. split; [by unfold Get; rewrite Hn|].
  intros metrics2 trace. rewrite Hret. by intros [= <- _].
Qed.

(** X9: whatever [GetOrRegister] returns, it has not removed or replaced
    an entry.  The map it leaves includes the map it found, or, when the
    name had no entry and a function was called, the map that function
    left; it agrees with that map on every other name; and when the name
    had an entry it is the map it found, whatever the argument. *)
Theorem GetOrRegister_keeps_entries name i metrics v metrics2 trace :
  GetOrRegister body name i metrics = Returned v metrics2 trace →
  let found :=
    match metrics !! name, i with
    | None, Iface _ (Closure _ _ (Some c)) => (body c metrics).2
    | _, _ => metrics
    end in
  found ⊆ metrics2
  ∧ (∀ other, other ≠ name → metrics2 !! other = found !! other)
  ∧ (is_Some (metrics !! name) → metrics2 = metrics).
Proof.
  assert (∀ j found, found ⊆ (register name j found).2
                     ∧ (∀ other, other ≠ name →
                          (register name j found).2 !! other = found !! other))
    as Hreg by (intros j found; apply (Register_keeps_entries name j found)).
  unfold GetOrRegister. destruct (metrics !! name) as [metric|] eqn:Hn.
  { intros [= _ <- _]. by repeat split. }
  destruct i as [|methods [addr|num_in variadic [c|]]]; simpl; try done.
  - intros [= _ <- _]. destruct (Hreg Nil metrics) as [Hsub Hother].
    by repeat split.
  - intros [= _ <- _].
    destruct (Hreg (Iface methods (Data addr)) metrics) as [Hsub Hother].
    by repeat split.
  - destruct (0 <? needed_args num_in variadic); [done|].
    destruct (body c metrics) as [[|i1 rest] metrics1] eqn:Hb; [done|].
    intros [= _ <- _]. destruct (Hreg i1 metrics1) as [Hsub Hother].
    by repeat split.
Qed.

(** ** The new registry, Each and UnregisterAll *)

(** X10: a new registry has no entry: [Get] answers nil for every name,
    [Each] and [RunHealthchecks] call nothing, [UnregisterAll] and
    [registered] give the empty map, [Register] of any value answers no
    error, and [GetOrRegister] of a value that is not a function returns
    that value. *)
Theorem NewReadWriteRegistry_empty name i f :
  Get name NewReadWriteRegistry = Nil
  ∧ Each order f NewReadWriteRegistry = (NewReadWriteRegistry, [])
  ∧ RunHealthchecks order NewReadWriteRegistry = []
  ∧ UnregisterAll order NewReadWriteRegistry = NewReadWriteRegistry
  ∧ registered order NewReadWriteRegistry = NewReadWriteRegistry
  ∧ (Register name i NewReadWriteRegistry).1 = None
  ∧ (Kind_is_Func i = false →
     ∃ metrics2,
       GetOrRegister body name i NewReadWriteRegistry
       = Returned i metrics2 []).
Proof.
  unfold NewReadWriteRegistry.
  split; [done|]. split.
  { unfold Each. rewrite (registered_copy order order_perm).
    by rewrite (order_empty order order_perm). }
  split. { unfold RunHealthchecks. by rewrite (order_empty order order_perm). }
  split; [apply (UnregisterAll_empty order order_perm)|].
  split; [apply (registered_copy order order_perm)|].
  split; [done|]. intros Hk.
  rewrite (GetOrRegister_literal body _ _ _ (lookup_empty _) Hk). eauto.
Qed.

Lemma unregister_loop (l : list (string * Value)) (live : gmap string Value) :
  foldl (λ live entry, unregistering_visitor entry.1 entry.2 live) live l
  = foldl (λ live '(name, _),
             match live !! name with
             | Some _ => delete name live
             | None => live
             end) live l.
Proof.
  revert live. induction l as [|[n i] l IH]; intros live; [done|].
  simpl. rewrite IH. unfold unregistering_visitor, Unregister.
  destruct (live !! n) eqn:E; [done|]. by rewrite delete_id.
Qed.

(** X11: [Each] itself changes nothing in the registry: the map after it
    is the map before it with the visitor's actions applied, entry by
    entry in the order of the visits.  With a visitor that leaves the
    registry alone the map is unchanged, and with one that unregisters
    every entry it is shown the registry ends up empty. *)
Theorem Each_final_registry f metrics :
  (Each order f metrics).1
  = foldl (λ live entry, f entry.1 entry.2 live) metrics (order metrics)
  ∧ ((∀ name i live, f name i live = live) → (Each order f metrics).1 = metrics)
  ∧ (Each order unregistering_visitor metrics).1 = ∅.
Proof.
  split; [apply Each_registry|]. split.
  - intros Hf. rewrite Each_registry.
    apply (visitors_keep (λ live, live = metrics)); [|done].
    intros n v live ->. apply Hf.
  - rewrite Each_registry, unregister_loop.
    apply (UnregisterAll_empty order order_perm).
Qed.

(** X12: after [UnregisterAll] every name is free again: [Register] of a
    recognized value answers no error under any name, and the registry
    then holds that entry and nothing else. *)
Theorem Register_after_UnregisterAll name i c metrics :
  implements i c = true →
  Register name i (UnregisterAll order metrics) = (None, {[name := i]})
  ∧ Get name (Register name i (UnregisterAll order metrics)).2 = i
  ∧ (∀ other, other ≠ name →
       Get other (Register name i (UnregisterAll order metrics)).2 = Nil).
Proof.
  intros Hc. rewrite (UnregisterAll_empty order order_perm).
  unfold Register. rewrite register_absent by apply lookup_empty.
  rewrite (implements_recognized _ _ Hc), insert_empty. simpl. unfold Get.
  split; [done|]. split; [by rewrite lookup_singleton_eq|].
  intros other H. by rewrite lookup_singleton_ne.
Qed.

End Properties.

(** ** The further properties at sample inputs *)

Lemma sample_metrics_recognized : only_recognized sample_metrics.
Proof.
  intros n v. unfold sample_metrics.
  intros [[_ <-]|[_ [[_ <-]|[_ H]]%lookup_insert_Some]]%lookup_insert_Some;
    done.
Qed.

Lemma Register_after_Unregister_witness :
  implements counterB Counter = true
  ∧ Register "requests" counterB (Unregister "requests" sample_metrics)
    = (None, <["requests" := counterB]> sample_metrics)
  ∧ Get "requests"
      (Register "requests" counterB (Unregister "requests" sample_metrics)).2
    = counterB
  ∧ (∀ other, other ≠ "requests" →
       Get other
         (Register "requests" counterB
            (Unregister "requests" sample_metrics)).2
       = Get other sample_metrics).
Proof.
  split; [reflexivity|].
  apply (Register_after_Unregister "requests" counterB Counter sample_metrics).
  reflexivity.
Defined.

Lemma methods_keep_only_recognized_witness :
  only_recognized sample_metrics
  ∧ (∀ metrics : gmap string Value, map_to_list metrics ≡ₚ map_to_list metrics)
  ∧ only_recognized (Register "note" label sample_metrics).2
  ∧ only_recognized (Unregister "db" sample_metrics)
  ∧ only_recognized (UnregisterAll map_to_list sample_metrics)
  ∧ only_recognized (Each map_to_list meddling_visitor sample_metrics).1.
Proof.
  split; [exact sample_metrics_recognized|]. split; [reflexivity|].
  destruct (methods_keep_only_recognized sample_body map_to_list
              (λ _, reflexivity _) "note" label meddling_visitor
              sample_metrics sample_metrics_recognized)
    as (_ & Hreg & _ & _ & _ & _ & Heach).
  destruct (methods_keep_only_recognized sample_body map_to_list
              (λ _, reflexivity _) "db" label meddling_visitor
              sample_metrics sample_metrics_recognized)
    as (_ & _ & Hunreg & Hall & _ & _ & _).
  split; [exact Hreg|]. split; [exact Hunreg|]. split; [exact Hall|].
  apply Heach. intros n v live Hlive. unfold meddling_visitor.
  destruct (methods_keep_only_recognized sample_body map_to_list
              (λ _, reflexivity _) n v meddling_visitor live Hlive)
    as (_ & _ & Hunreg' & _).
  destruct (methods_keep_only_recognized sample_body map_to_list
              (λ _, reflexivity _) (n +:+ ".seen") counterB meddling_visitor
              (Unregister n live) Hunreg')
    as (_ & Hreg' & _).
  exact Hreg'.
Defined.

Lemma Get_nil_iff_absent_witness :
  only_recognized sample_metrics
  ∧ (Get "hits" sample_metrics = Nil ↔ sample_metrics !! "hits" = None)
  ∧ (Get "db" sample_metrics = Nil ↔ sample_metrics !! "db" = None).
Proof.
  split; [exact sample_metrics_recognized|]. split.
  - exact (Get_nil_iff_absent "hits" sample_metrics sample_metrics_recognized).
  - exact (Get_nil_iff_absent "db" sample_metrics sample_metrics_recognized).
Defined.

Lemma GetOrRegister_panics_witness :
  GetOrRegister more_body "latency" newHistogram sample_metrics
  = Panicked TooFewInputArguments sample_metrics []
  ∧ GetOrRegister more_body "latency" noResult sample_metrics
    = Panicked IndexOutOfRange sample_metrics [Called noResult]
  ∧ GetOrRegister more_body "latency" (Iface [] (Closure 0 false None))
      sample_metrics
    = Panicked CallOfNilFunction sample_metrics []
  ∧ ¬ GetOrRegister more_body "db" newHistogram sample_metrics
      = Panicked TooFewInputArguments sample_metrics [].
Proof.
  split; [|split; [|split]].
  - apply (GetOrRegister_panics more_body "latency" newHistogram
             sample_metrics TooFewInputArguments sample_metrics []).
    split; [reflexivity|]. exists [], 1, false, (Some 2).
    repeat split; [by exists 2|simpl; lia].
  - apply (GetOrRegister_panics more_body "latency" noResult
             sample_metrics IndexOutOfRange sample_metrics [Called noResult]).
    split; [reflexivity|]. exists [], 0, false, (Some 11).
    repeat split. by exists 11.
  - apply (GetOrRegister_panics more_body "latency"
             (Iface [] (Closure 0 false None)) sample_metrics
             CallOfNilFunction sample_metrics []).
    split; [reflexivity|]. by exists [], 0, false, None.
  - intros [Habsent _]%(GetOrRegister_panics more_body). discriminate Habsent.
Defined.

Lemma GetOrRegister_then_Get_witness :
  Kind_is_Func counterB = false
  ∧ implements counterB Counter = true
  ∧ ∃ v metrics2,
      GetOrRegister sample_body "hits" counterB sample_metrics
      = Returned v metrics2 []
      ∧ Get "hits" metrics2 = v
      ∧ metrics2 !! "hits" = Some v
      ∧ sample_metrics ⊆ metrics2
      ∧ (∀ j, GetOrRegister sample_body "hits" j metrics2
              = Returned v metrics2 []).
Proof.
  split; [reflexivity|]. split; [reflexivity|].
  apply (GetOrRegister_then_Get sample_body "hits" counterB Counter
           sample_metrics); reflexivity.
Defined.

Lemma GetOrRegister_unrecognized_result_witness :
  sample_metrics !! "hits" = None
  ∧ needed_args 0 false = 0
  ∧ more_body 10 sample_metrics = ([Nil], sample_metrics)
  ∧ (∀ cap, implements Nil cap = false)
  ∧ GetOrRegister more_body "hits" nilFactory sample_metrics
    = Returned Nil sample_metrics [Called nilFactory]
  ∧ Get "hits" sample_metrics = Nil
  ∧ (∀ metrics2 trace,
       GetOrRegister more_body "hits" nilFactory sample_metrics
       = Returned Nil metrics2 trace →
       GetOrRegister more_body "hits" nilFactory metrics2
       = Returned Nil metrics2 [Called nilFactory]).
Proof.
  split; [reflexivity|]. split; [reflexivity|]. split; [reflexivity|].
  split; [done|].
  apply (GetOrRegister_unrecognized_result more_body "hits" [] 0 false 10
           sample_metrics Nil []); done.
Defined.

Lemma GetOrRegister_keeps_entries_witness :
  GetOrRegister sample_body "requests" registeringFactory ∅
  = Returned counterB (<["requests" := counterA]> ∅)
      [Called registeringFactory]
  ∧ ((sample_body 1 ∅).2 ⊆ <["requests" := counterA]> ∅
     ∧ (∀ other, other ≠ "requests" →
          (<["requests" := counterA]> ∅ : gmap string Value) !! other
          = (sample_body 1 ∅).2 !! other)
     ∧ (is_Some ((∅ : gmap string Value) !! "requests") →
        <["requests" := counterA]> ∅ = (∅ : gmap string Value)))
  ∧ GetOrRegister sample_body "db" newHistogram sample_metrics
    = Returned dbCheck sample_metrics []
  ∧ (sample_metrics ⊆ sample_metrics
     ∧ (∀ other, other ≠ "db" →
          sample_metrics !! other = sample_metrics !! other)
     ∧ (is_Some (sample_metrics !! "db") → sample_metrics = sample_metrics)).
Proof.
  split; [reflexivity|]. split.
  - exact (GetOrRegister_keeps_entries sample_body "requests"
             registeringFactory ∅ counterB (<["requests" := counterA]> ∅)
             [Called registeringFactory] eq_refl).
  - split; [reflexivity|].
    exact (GetOrRegister_keeps_entries sample_body "db" newHistogram
             sample_metrics dbCheck sample_metrics [] eq_refl).
Defined.

Lemma NewReadWriteRegistry_empty_witness :
  (∀ metrics : gmap string Value, map_to_list metrics ≡ₚ map_to_list metrics)
  ∧ Get "requests" NewReadWriteRegistry = Nil
  ∧ Each map_to_list meddling_visitor NewReadWriteRegistry
    = (NewReadWriteRegistry, [])
  ∧ RunHealthchecks map_to_list NewReadWriteRegistry = []
  ∧ UnregisterAll map_to_list NewReadWriteRegistry = NewReadWriteRegistry
  ∧ registered map_to_list NewReadWriteRegistry = NewReadWriteRegistry
  ∧ (Register "requests" label NewReadWriteRegistry).1 = None
  ∧ (Kind_is_Func label = false →
     ∃ metrics2,
       GetOrRegister sample_body "requests" label NewReadWriteRegistry
       = Returned label metrics2 []).
Proof.
  split; [reflexivity|].
  apply (NewReadWriteRegistry_empty sample_body map_to_list
           (λ _, reflexivity _) "requests" label meddling_visitor).
Defined.

Lemma Each_final_registry_witness :
  (∀ metrics : gmap string Value, map_to_list metrics ≡ₚ map_to_list metrics)
  ∧ (Each map_to_list meddling_visitor sample_metrics).1
    = <["db.seen" := counterB]> (<["requests.seen" := counterB]> ∅)
  ∧ (Each map_to_list unregistering_visitor sample_metrics).1 = ∅.
Proof.
  split; [reflexivity|].
  destruct (Each_final_registry map_to_list (λ _, reflexivity _)
              meddling_visitor sample_metrics) as (Hfold & _ & Hempty).
  split; [|exact Hempty]. rewrite Hfold. reflexivity.
Defined.

Lemma Register_after_UnregisterAll_witness :
  (∀ metrics : gmap string Value, map_to_list metrics ≡ₚ map_to_list metrics)
  ∧ implements dbCheck Healthcheck = true
  ∧ Register "db" dbCheck (UnregisterAll map_to_list sample_metrics)
    = (None, {["db" := dbCheck]})
  ∧ Get "db" (Register "db" dbCheck
                (UnregisterAll map_to_list sample_metrics)).2 = dbCheck
  ∧ (∀ other, other ≠ "db" →
       Get other (Register "db" dbCheck
                    (UnregisterAll map_to_list sample_metrics)).2 = Nil).
Proof.
  split; [reflexivity|]. split; [reflexivity|].
  apply (Register_after_UnregisterAll map_to_list (λ _, reflexivity _)
           "db" dbCheck Healthcheck sample_metrics).
  reflexivity.
Defined.

Lemma Unregister_removes_witness :
  Get "db" (Unregister "db" sample_metrics) = Nil
  ∧ Get "requests" (Unregister "db" sample_metrics) = counterA
  ∧ Unregister "hits" sample_metrics = sample_metrics
  ∧ Unregister "hits" (Register "hits" counterB sample_metrics).2
    = sample_metrics.
Proof.
  destruct (Unregister_removes "db" counterB sample_metrics)
    as (Hgone & Hother & _).
  destruct (Unregister_removes "hits" counterB sample_metrics)
    as (_ & _ & Hnoop & _ & Hundo).
  split; [exact Hgone|].
  split; [exact (Hother "requests" ltac:(discriminate))|].
  split; [exact (Hnoop eq_refl)|exact (Hundo eq_refl)].
Defined.

Lemma Register_keeps_entries_witness :
  ((Register "db" counterB sample_metrics).1
   = Some (DuplicateMetric "db") ↔ is_Some (sample_metrics !! "db"))
  ∧ sample_metrics ⊆ (Register "hits" counterB sample_metrics).2
  ∧ Get "db" (Register "hits" counterB sample_metrics).2 = dbCheck.
Proof.
  destruct (Register_keeps_entries "db" counterB sample_metrics)
    as (Hdup & _).
  destruct (Register_keeps_entries "hits" counterB sample_metrics)
    as (_ & _ & Hsub & Hother).
  split; [exact Hdup|]. split; [exact Hsub|].
  unfold Get. rewrite (Hother "db" ltac:(discriminate)). reflexivity.
Defined.

(** C10, as stated, fails: [namedCounter] takes a parameter, so it is no
    factory, and it is of no recognized type; yet for a name without an
    entry [GetOrRegister] does not return it: it calls it with no
    argument and panics.  And handed nil, it returns nil, the very value
    [Get] answers for a name without an entry. *)
Lemma GetOrRegister_unrecognized_function_panics :
  (∅ : gmap string Value) !! "hits" = None
  ∧ needed_args 1 false = 1
  ∧ (∀ c, implements namedCounter c = false)
  ∧ GetOrRegister sample_body "hits" namedCounter ∅
    = Panicked TooFewInputArguments ∅ []
  ∧ (¬ ∃ metrics2 trace,
         GetOrRegister sample_body "hits" namedCounter ∅
         = Returned namedCounter metrics2 trace)
  ∧ GetOrRegister sample_body "hits" Nil ∅ = Returned Nil ∅ []
  ∧ Get "hits" ∅ = Nil.
Proof.
  split; [reflexivity|]. split; [reflexivity|]. split; [by intros []|].
  split; [reflexivity|]. split; [|by split].
  intros (metrics2 & trace & H). discriminate H.
Qed.

Lemma Each_visits_snapshot_once_witness :
  (∀ metrics : gmap string Value, map_to_list metrics ≡ₚ map_to_list metrics)
  ∧ ({[0 := sample_metrics]} : gmap nat (gmap string Value)) !! 0
    = Some sample_metrics
  ∧ Objects.registered map_to_list 0 {[0 := sample_metrics]}
    = (1, <[1 := sample_metrics]> {[0 := sample_metrics]})
  ∧ Objects.Each map_to_list meddling_visitor 0 {[0 := sample_metrics]}
    = (<[0 := <["db.seen" := counterB]> (<["requests.seen" := counterB]> ∅)]>
         (<[1 := sample_metrics]> {[0 := sample_metrics]}),
       [Visited "requests" counterA; Visited "db" dbCheck])
  ∧ (∀ name i,
       calls (Visited name i)
         (Objects.Each map_to_list meddling_visitor 0
            {[0 := sample_metrics]}).2
       = if decide (sample_metrics !! name = Some i) then 1 else 0)
  ∧ (Objects.Each map_to_list meddling_visitor 0 {[0 := sample_metrics]}).1
    !! 1 = Some sample_metrics
  ∧ Each map_to_list meddling_visitor sample_metrics
    = ((Objects.Each map_to_list meddling_visitor 0
          {[0 := sample_metrics]}).1 !!! 0,
       (Objects.Each map_to_list meddling_visitor 0
          {[0 := sample_metrics]}).2).
Proof.
  split; [reflexivity|].
  assert (({[0 := sample_metrics]} : gmap nat (gmap string Value)) !! 0
          = Some sample_metrics) as Hr by reflexivity.
  split; [exact Hr|].
  destruct (Each_visits_snapshot_once map_to_list (λ _, reflexivity _)
              meddling_visitor 0 {[0 := sample_metrics]} sample_metrics Hr)
    as (_ & Hreg & Hafter & _ & Hcalls & Hsnap & _ & Hval & _).
  split; [exact Hreg|]. split; [exact Hafter|]. split; [exact Hcalls|].
  split; [exact Hsnap|exact Hval].
Defined.
